(** * projectionkit: the optimistic-concurrency version store

    A shallow embedding of the PostgreSQL driver of package [sqlprojection]
    (the [postgresDriver] methods) and of the option plumbing of package
    [dynamoprojection], with the properties of the version-tracking
    protocol stated and proved over them.

    The Go code talks to a database through [database/sql].  The table
    [projection.occ] is modelled as a finite map from its primary key
    [(handler, resource)] to the [version] column, and every statement the
    driver issues is given its SQL meaning on that map.  A statement may
    also fail for a reason that the table's contents do not determine (a
    broken connection, a cancelled context, ...): every driver method
    therefore takes the backend fault, if any, that hits its statement. *)

From Stdlib Require Import Strings.Byte.
From stdpp Require Import gmap strings list fin_maps.

(** ** Tokens and keys *)

(** A [[]byte] value, by its contents.  The empty list is Go's [nil]
    slice, the empty token of the protocol: its length is 0, it is what
    [QueryVersion] returns for a resource without a record, and
    [database/sql] and the client libraries send it to the server as SQL
    [NULL].  The other values are the slices of positive length. *)
Abbreviation bytes := (list byte).

#[global] Instance byte_eq_dec : EqDecision byte := Byte.byte_eq_dec.

#[global] Program Instance byte_countable : Countable byte :=
  inj_countable Byte.to_N Byte.of_N _.
Next Obligation. intros b. apply Byte.of_to_N. Qed.

(** [len(b) == 0] *)
Definition is_empty (b : bytes) : bool :=
  match b with
  | [] => true
  | _ :: _ => false
  end.

(** The primary key of [projection.occ]: [(handler, resource)]. *)
Abbreviation key := (string * bytes)%type.

(** The rows of [projection.occ]: the primary key maps to [version]. *)
Abbreviation table := (gmap key bytes).

(** ** Go errors *)

Module GoError.

(** A non-nil Go [error] value, as far as the driver can tell errors
    apart: the two PostgreSQL client error types with their SQLSTATE
    code, the [sql.ErrNoRows] sentinel, any other error, and an error
    that wraps another one (what [errors.As] unwraps). *)
Inductive t : Type :=
| PqError (code : string)          (* *pq.Error *)
| PgError (code : string)          (* *pgconn.PgError *)
| ErrNoRows                        (* sql.ErrNoRows *)
| Other (msg : string)
| Wrap (msg : string) (inner : t).

#[global] Instance eq_dec : EqDecision t.
Proof. solve_decision. Defined.

(** [var e *pq.Error; errors.As(err, &e)], giving [e.Code]. *)
Fixpoint as_pq (e : t) : option string :=
  match e with
  | PqError code => Some code
  | Wrap _ inner => as_pq inner
  | _ => None
  end.

(** [var e *pgconn.PgError; errors.As(err, &e)], giving [e.Code]. *)
Fixpoint as_pg (e : t) : option string :=
  match e with
  | PgError code => Some code
  | Wrap _ inner => as_pg inner
  | _ => None
  end.

End GoError.

(** A Go [error]: [None] is [nil]. *)
Abbreviation error := (option GoError.t).

(** [pgerrcode.UniqueViolation] *)
Definition UniqueViolation : string := "23505".

(** SQLSTATE [not_null_violation], what PostgreSQL raises when a [NULL]
    is written to one of the [BYTEA NOT NULL] columns. *)
Definition NotNullViolation : string := "23502".

(** ** The database *)

(** The client library a connection was opened through.  The driver is
    written for [*pq.Driver] and [*stdlib.Driver] (pgx), the two that
    [IsCompatibleWith] accepts, and is run on such connections only. *)
Inductive sql_driver : Type :=
| PqDriver                            (* *pq.Driver *)
| StdlibDriver.                       (* *stdlib.Driver *)

(** A connection: the client library in use and the rows of
    [projection.occ] it sees.  [*sql.DB] and [*sql.Tx] are both modelled
    by it: the driver's statements read and write the same table. *)
Record conn : Type := Conn {
  conn_driver : sql_driver;
  occ : table
}.

(** [sql.Result], of which the driver reads [RowsAffected()] only.  Both
    client libraries return a [driver.RowsAffected], whose method never
    fails. *)
Record sql_result : Type := SqlResult {
  rows : Z
}.

Definition RowsAffected (res : sql_result) : Z * error :=
  (rows res, None).

(** The error a client library reports for SQLSTATE [code]. *)
Definition server_error (d : sql_driver) (code : string) : GoError.t :=
  match d with
  | PqDriver => GoError.PqError code
  | StdlibDriver => GoError.PgError code
  end.

Module Sql.

(** What [ExecContext] gives back: the connection after the statement
    and either its result or its error. *)
Abbreviation outcome := (conn * (sql_result + GoError.t))%type.

Definition set_occ (db : conn) (t : table) : conn :=
  Conn (conn_driver db) t.

(** A statement that the backend fault [fault] hits is not run. *)
Definition exec (fault : error) (stmt : conn -> outcome) (db : conn) : outcome :=
  match fault with
  | Some e => (db, inr e)
  | None => stmt db
  end.

(** The row to write has a [NULL] in [resource] or in [version], both
    [BYTEA NOT NULL].  The handler is a Go string and is never [NULL]. *)
Definition has_null (r v : bytes) : bool :=
  is_empty r || is_empty v.

(** [INSERT INTO projection.occ (handler, resource, version)
     VALUES ($1, $2, $3)].  The [NOT NULL] constraints are checked on
    the row before the primary key is. *)
Definition insert (h : string) (r v : bytes) (db : conn) : outcome :=
  if has_null r v
  then (db, inr (server_error (conn_driver db) NotNullViolation))
  else
    match occ db !! (h, r) with
    | Some _ => (db, inr (server_error (conn_driver db) UniqueViolation))
    | None => (set_occ db (<[(h, r) := v]> (occ db)), inl (SqlResult 1))
    end.

(** [INSERT ... ON CONFLICT (handler, resource) DO UPDATE SET
     version = excluded.version].  The [NOT NULL] constraints are checked
    on the row before the conflict is looked for. *)
Definition upsert (h : string) (r v : bytes) (db : conn) : outcome :=
  if has_null r v
  then (db, inr (server_error (conn_driver db) NotNullViolation))
  else (set_occ db (<[(h, r) := v]> (occ db)), inl (SqlResult 1)).

(** [DELETE FROM projection.occ
     WHERE handler = $1 AND resource = $2 AND version = $3] *)
Definition delete_where (h : string) (r c : bytes) (db : conn) : outcome :=
  match occ db !! (h, r) with
  | Some v =>
      if decide (v = c)
      then (set_occ db (delete (h, r) (occ db)), inl (SqlResult 1))
      else (db, inl (SqlResult 0))
  | None => (db, inl (SqlResult 0))
  end.

(** [UPDATE projection.occ SET version = $1
     WHERE handler = $2 AND resource = $3 AND version = $4] *)
Definition update_where (n : bytes) (h : string) (r c : bytes) (db : conn) : outcome :=
  match occ db !! (h, r) with
  | Some v =>
      if decide (v = c)
      then (set_occ db (<[(h, r) := n]> (occ db)), inl (SqlResult 1))
      else (db, inl (SqlResult 0))
  | None => (db, inl (SqlResult 0))
  end.

(** [DELETE FROM projection.occ WHERE handler = $1 AND resource = $2] *)
Definition delete_key (h : string) (r : bytes) (db : conn) : outcome :=
  match occ db !! (h, r) with
  | Some _ => (set_occ db (delete (h, r) (occ db)), inl (SqlResult 1))
  | None => (db, inl (SqlResult 0))
  end.

(** Where a backend fault hits [QueryRowContext] and [row.Scan]: before
    a row is read (the query or the fetch fails), or when the rows are
    closed after the scan, which is the last thing [Row.Scan] does. *)
Inductive scan_fault : Type :=
| BeforeRow (e : GoError.t)
| AtClose (e : GoError.t).

(** [QueryRowContext] of [SELECT version FROM projection.occ
     WHERE handler = $1 AND resource = $2] followed by [row.Scan(&v)]
    into a [v] that starts out [nil]: [v] as the scan left it, and the
    error.  Without a row, [Row.Scan] returns [sql.ErrNoRows] and what
    closing the rows returns is dropped; with a row, [v] is filled and
    the error of closing the rows is returned. *)
Definition select_version (fault : option scan_fault) (h : string) (r : bytes)
    (db : conn) : bytes * error :=
  match fault with
  | Some (BeforeRow e) => ([], Some e)
  | Some (AtClose e) =>
      match occ db !! (h, r) with
      | Some v => (v, Some e)
      | None => ([], Some GoError.ErrNoRows)
      end
  | None =>
      match occ db !! (h, r) with
      | Some v => (v, None)
      | None => ([], Some GoError.ErrNoRows)
      end
  end.

End Sql.

(** ** The PostgreSQL driver *)

Module postgresDriver.

Definition isDup (err : error) : bool :=
  match err with
  | None => false
  | Some e =>
      match GoError.as_pq e with
      | Some code => bool_decide (code = UniqueViolation)
      | None =>
          match GoError.as_pg e with
          | Some code => bool_decide (code = UniqueViolation)
          | None => false
          end
      end
  end.

(** The error of an [ExecContext] outcome ([nil] on success). *)
Definition err_of (o : sql_result + GoError.t) : error :=
  match o with
  | inl _ => None
  | inr e => Some e
  end.

Definition StoreVersion (fault : error) (db : conn)
    (h : string) (r v : bytes) : conn * error :=
  let '(db', o) := Sql.exec fault (Sql.upsert h r v) db in
  (db', err_of o).

Definition UpdateVersion (fault : error) (tx : conn)
    (h : string) (r c n : bytes) : conn * (bool * error) :=
  if is_empty c then
    let '(tx', o) := Sql.exec fault (Sql.insert h r n) tx in
    let err := err_of o in
    if isDup err then (tx', (false, None))
    else (tx', (true, err))
  else
    let '(tx', o) :=
      if is_empty n
      then Sql.exec fault (Sql.delete_where h r c) tx
      else Sql.exec fault (Sql.update_where n h r c) tx in
    match o with
    | inr e => (tx', (false, Some e))
    | inl res =>
        let '(count, err) := RowsAffected res in
        (tx', (negb (count =? 0)%Z, err))
    end.

Definition QueryVersion (fault : option Sql.scan_fault) (db : conn)
    (h : string) (r : bytes) : bytes * error :=
  let '(v, err) := Sql.select_version fault h r db in
  if decide (err = Some GoError.ErrNoRows) then ([], None)
  else (v, err).

Definition DeleteResource (fault : error) (db : conn)
    (h : string) (r : bytes) : conn * error :=
  let '(db', o) := Sql.exec fault (Sql.delete_key h r) db in
  (db', err_of o).

End postgresDriver.

(** ** The DynamoDB options *)

Module dynamoprojection.

Section Options.

(** The request types of the AWS SDK ([dynamodb.GetItemInput], ...) and
    its [dynamodb.Options]. *)
Context {GetItemInput PutItemInput DeleteItemInput TransactWriteItemsInput
         CreateTableInput DeleteTableInput Options : Type}.

(** A decorator function, from a pointer to the request input to a slice
    of functions on [dynamodb.Options]: it may change the input in place
    and returns the request options. *)
Definition decorator (In : Type) : Type :=
  In -> In * list (Options -> Options).

(** The [decorators] struct.  A Go function value may be [nil]. *)
Record decorators : Type := Decorators {
  decorateGetItem : option (decorator GetItemInput);
  decoratePutItem : option (decorator PutItemInput);
  decorateDeleteItem : option (decorator DeleteItemInput);
  decorateTransactWriteItems : option (decorator TransactWriteItemsInput);
  decorateCreateTableItem : option (decorator CreateTableInput);
  decorateDeleteTableItem : option (decorator DeleteTableInput)
}.

(** The [options] struct.  Its functions receive a [*decorators] and
    assign to its fields: they take the struct and return it updated. *)
Record options : Type := MkOptions {
  applyOptionToAdaptorFunc : option (decorators -> decorators);
  applyResourceRepositoryOptionFunc : option (decorators -> decorators);
  applyTableOptionFunc : option (decorators -> decorators)
}.

Definition applyOptionToAdaptor (o : options) (d : decorators) : decorators :=
  match applyOptionToAdaptorFunc o with
  | Some f => f d
  | None => d
  end.

Definition applyResourceRepositoryOption (o : options) (d : decorators) : decorators :=
  match applyResourceRepositoryOptionFunc o with
  | Some f => f d
  | None => d
  end.

Definition applyTableOption (o : options) (d : decorators) : decorators :=
  match applyTableOptionFunc o with
  | Some f => f d
  | None => d
  end.

(** The field assignments [d.decorateGetItem = dec], ... *)
Definition set_decorateGetItem dec (d : decorators) : decorators :=
  Decorators dec (decoratePutItem d) (decorateDeleteItem d)
    (decorateTransactWriteItems d) (decorateCreateTableItem d)
    (decorateDeleteTableItem d).

Definition set_decoratePutItem dec (d : decorators) : decorators :=
  Decorators (decorateGetItem d) dec (decorateDeleteItem d)
    (decorateTransactWriteItems d) (decorateCreateTableItem d)
    (decorateDeleteTableItem d).

Definition set_decorateDeleteItem dec (d : decorators) : decorators :=
  Decorators (decorateGetItem d) (decoratePutItem d) dec
    (decorateTransactWriteItems d) (decorateCreateTableItem d)
    (decorateDeleteTableItem d).

Definition set_decorateTransactWriteItems dec (d : decorators) : decorators :=
  Decorators (decorateGetItem d) (decoratePutItem d) (decorateDeleteItem d)
    dec (decorateCreateTableItem d) (decorateDeleteTableItem d).

Definition set_decorateCreateTableItem dec (d : decorators) : decorators :=
  Decorators (decorateGetItem d) (decoratePutItem d) (decorateDeleteItem d)
    (decorateTransactWriteItems d) dec (decorateDeleteTableItem d).

Definition set_decorateDeleteTableItem dec (d : decorators) : decorators :=
  Decorators (decorateGetItem d) (decoratePutItem d) (decorateDeleteItem d)
    (decorateTransactWriteItems d) (decorateCreateTableItem d) dec.

Definition WithDecorateGetItem (dec : option (decorator GetItemInput)) : options :=
  {| applyOptionToAdaptorFunc := Some (fun d => d);
     applyResourceRepositoryOptionFunc := Some (set_decorateGetItem dec);
     applyTableOptionFunc := None |}.

Definition WithDecoratePutItem (dec : option (decorator PutItemInput)) : options :=
  {| applyOptionToAdaptorFunc := Some (fun d => d);
     applyResourceRepositoryOptionFunc := Some (set_decoratePutItem dec);
     applyTableOptionFunc := None |}.

Definition WithDecorateDeleteItem (dec : option (decorator DeleteItemInput)) : options :=
  {| applyOptionToAdaptorFunc := Some (fun d => d);
     applyResourceRepositoryOptionFunc := Some (set_decorateDeleteItem dec);
     applyTableOptionFunc := None |}.

Definition WithDecorateTransactWriteItems
    (dec : option (decorator TransactWriteItemsInput)) : options :=
  {| applyOptionToAdaptorFunc := Some (fun d => d);
     applyResourceRepositoryOptionFunc := Some (set_decorateTransactWriteItems dec);
     applyTableOptionFunc := None |}.

Definition WithDecorateCreateTable (dec : option (decorator CreateTableInput)) : options :=
  {| applyOptionToAdaptorFunc := None;
     applyResourceRepositoryOptionFunc := None;
     applyTableOptionFunc := Some (set_decorateCreateTableItem dec) |}.

Definition WithDecorateDeleteTable (dec : option (decorator DeleteTableInput)) : options :=
  {| applyOptionToAdaptorFunc := None;
     applyResourceRepositoryOptionFunc := None;
     applyTableOptionFunc := Some (set_decorateDeleteTableItem dec) |}.

End Options.

End dynamoprojection.

(** ** Vocabulary of the properties *)

(** The errors that are a PostgreSQL uniqueness violation: a [*pq.Error]
    or a [*pgconn.PgError] with SQLSTATE 23505, possibly wrapped. *)
Inductive unique_violation : GoError.t -> Prop :=
| uv_pq : unique_violation (GoError.PqError UniqueViolation)
| uv_pg : unique_violation (GoError.PgError UniqueViolation)
| uv_wrap msg e : unique_violation e -> unique_violation (GoError.Wrap msg e).


(** The scenario of the protocol's description: one handler, the resource
    [order-42] and its successive version tokens. *)
Module Scenario.

Definition handler : string := "orders".
Definition order42 : bytes := [x6f; x72; x64; x65; x72; x2d; x34; x32].
Definition v1 : bytes := [x76; x31].
Definition v2 : bytes := [x76; x32].

(** The resource has never been seen. *)
Definition unknown : conn := Conn PqDriver ∅.

(** The resource is at version [v1]. *)
Definition at_v1 : conn := Conn StdlibDriver {[ (handler, order42) := v1 ]}.

(** A connection that broke. *)
Definition conn_reset : GoError.t :=
  GoError.Wrap "write tcp" (GoError.Other "connection reset by peer").

End Scenario.

(** A [decorators] struct with no decorator registered, a decorator that
    asks for nothing, and requests without content. *)
Module OptionScenario.

Definition no_decorators : @dynamoprojection.decorators unit unit unit unit unit unit unit :=
  dynamoprojection.Decorators None None None None None None.

Definition plain : @dynamoprojection.decorator unit unit :=
  fun input => (input, []).

Definition table_only : @dynamoprojection.options unit unit unit unit unit unit unit :=
  dynamoprojection.WithDecorateCreateTable (Some plain).

End OptionScenario.

(** ** Provisioning *)

(** [CreateSchema] and [DropSchema] act on the database as a whole: the
    schema [projection] is absent, or present with the rows of its table
    [occ]. *)
Record database : Type := Database {
  db_driver : sql_driver;
  projection : option table
}.

(** SQLSTATE [duplicate_schema], what [CREATE SCHEMA] raises when the
    schema exists. *)
Definition DuplicateSchema : string := "42P06".

Module Ddl.

Abbreviation outcome := (database * (sql_result + GoError.t))%type.

Definition exec (fault : error) (stmt : database -> outcome) (d : database) : outcome :=
  match fault with
  | Some e => (d, inr e)
  | None => stmt d
  end.

(** [CREATE SCHEMA projection; CREATE TABLE projection.occ (...)]: one
    batch, which fails as a whole when the schema exists. *)
Definition create_schema (d : database) : outcome :=
  match projection d with
  | Some _ => (d, inr (server_error (db_driver d) DuplicateSchema))
  | None => (Database (db_driver d) (Some ∅), inl (SqlResult 0))
  end.

(** [DROP SCHEMA IF EXISTS projection CASCADE] *)
Definition drop_schema (d : database) : outcome :=
  (Database (db_driver d) None, inl (SqlResult 0)).

End Ddl.

Module Provisioning.

Definition CreateSchema (fault : error) (d : database) : database * error :=
  let '(d', o) := Ddl.exec fault Ddl.create_schema d in
  (d', postgresDriver.err_of o).

Definition DropSchema (fault : error) (d : database) : database * error :=
  let '(d', o) := Ddl.exec fault Ddl.drop_schema d in
  (d', postgresDriver.err_of o).

(** The connection that the statements on [projection.occ] run on, when
    the schema is there. *)
Definition session (d : database) : option conn :=
  match projection d with
  | Some t => Some (Conn (db_driver d) t)
  | None => None
  end.

End Provisioning.

(** ** Sequences of options *)

Module OptionList.

Section OptionList.

Context {GetItemInput PutItemInput DeleteItemInput TransactWriteItemsInput
         CreateTableInput DeleteTableInput Options : Type}.

Abbreviation decorators_t :=
  (@dynamoprojection.decorators GetItemInput PutItemInput DeleteItemInput
     TransactWriteItemsInput CreateTableInput DeleteTableInput Options).

Abbreviation options_t :=
  (@dynamoprojection.options GetItemInput PutItemInput DeleteItemInput
     TransactWriteItemsInput CreateTableInput DeleteTableInput Options).

(** A call of one of the four item-level constructors. *)
Inductive item_option : Type :=
| GetItemOption (dec : option (@dynamoprojection.decorator Options GetItemInput))
| PutItemOption (dec : option (@dynamoprojection.decorator Options PutItemInput))
| DeleteItemOption (dec : option (@dynamoprojection.decorator Options DeleteItemInput))
| TransactWriteItemsOption
    (dec : option (@dynamoprojection.decorator Options TransactWriteItemsInput)).

(** A call of one of the two table-level constructors. *)
Inductive table_option : Type :=
| CreateTableOption (dec : option (@dynamoprojection.decorator Options CreateTableInput))
| DeleteTableOption (dec : option (@dynamoprojection.decorator Options DeleteTableInput)).

Definition build_item (o : item_option) : options_t :=
  match o with
  | GetItemOption dec => dynamoprojection.WithDecorateGetItem dec
  | PutItemOption dec => dynamoprojection.WithDecoratePutItem dec
  | DeleteItemOption dec => dynamoprojection.WithDecorateDeleteItem dec
  | TransactWriteItemsOption dec => dynamoprojection.WithDecorateTransactWriteItems dec
  end.

Definition build_table (o : table_option) : options_t :=
  match o with
  | CreateTableOption dec => dynamoprojection.WithDecorateCreateTable dec
  | DeleteTableOption dec => dynamoprojection.WithDecorateDeleteTable dec
  end.

(** The options applied one after the other to the same struct, first
    to last. *)
Definition apply_each (apply : options_t -> decorators_t -> decorators_t)
    (os : list options_t) (d : decorators_t) : decorators_t :=
  foldl (fun acc o => apply o acc) d os.

(** The decorator that the last option of its kind in the list carries,
    if the list has one of that kind. *)
Definition last_GetItem (os : list item_option) :=
  foldl (fun acc o => match o with GetItemOption dec => Some dec | _ => acc end)
    None os.

Definition last_PutItem (os : list item_option) :=
  foldl (fun acc o => match o with PutItemOption dec => Some dec | _ => acc end)
    None os.

Definition last_DeleteItem (os : list item_option) :=
  foldl (fun acc o => match o with DeleteItemOption dec => Some dec | _ => acc end)
    None os.

Definition last_TransactWriteItems (os : list item_option) :=
  foldl (fun acc o =>
           match o with TransactWriteItemsOption dec => Some dec | _ => acc end)
    None os.

Definition last_CreateTable (os : list table_option) :=
  foldl (fun acc o => match o with CreateTableOption dec => Some dec | _ => acc end)
    None os.

Definition last_DeleteTable (os : list table_option) :=
  foldl (fun acc o => match o with DeleteTableOption dec => Some dec | _ => acc end)
    None os.

(** Two item-level options are of the same kind. *)
Definition same_kind (a b : item_option) : bool :=
  match a, b with
  | GetItemOption _, GetItemOption _ => true
  | PutItemOption _, PutItemOption _ => true
  | DeleteItemOption _, DeleteItemOption _ => true
  | TransactWriteItemsOption _, TransactWriteItemsOption _ => true
  | _, _ => false
  end.

End OptionList.

End OptionList.

(** ** More vocabulary *)

(** [e] wrapped once per message, the first message outermost: what
    repeated [fmt.Errorf] with the verb [%w] builds. *)
Definition wrap_all (msgs : list string) (e : GoError.t) : GoError.t :=
  foldr GoError.Wrap e msgs.

(** More states of the scenario. *)
Module Ledger.

Definition invoice7 : bytes := [x69; x6e; x76; x2d; x37].
Definition v3 : bytes := [x76; x33].

(** Two resources with a record each. *)
Definition two_records : conn :=
  Conn PqDriver
    (<[(Scenario.handler, invoice7) := v3]>
       {[ (Scenario.handler, Scenario.order42) := Scenario.v1 ]}).

(** A uniqueness violation that did not come from the primary key of
    [projection.occ] and reached the driver wrapped. *)
Definition foreign_dup : GoError.t :=
  GoError.Wrap "exec" (GoError.PqError UniqueViolation).

(** A database without the schema, and one that holds it. *)
Definition bare : database := Database PqDriver None.

Definition provisioned : database :=
  Database StdlibDriver (Some {[ (Scenario.handler, Scenario.order42) := Scenario.v1 ]}).

End Ledger.

(** Two calls of item-level constructors on requests without content. *)
Module OptionCalls.

Definition get_plain : @OptionList.item_option unit unit unit unit unit :=
  OptionList.GetItemOption (Some OptionScenario.plain).

Definition put_plain : @OptionList.item_option unit unit unit unit unit :=
  OptionList.PutItemOption (Some OptionScenario.plain).

End OptionCalls.

(** * Properties of the PostgreSQL driver *)

Import postgresDriver.

Section ErrorClassification.

Lemma as_pq_pg_excl e code : GoError.as_pq e = Some code -> GoError.as_pg e = None.
Proof.
  induction e as [ | | | | msg inner IH]; simpl; intros H; try discriminate; auto.
Qed.

(** [isDup] answers true on the uniqueness violations and on nothing
    else. *)
Lemma isDup_iff e : isDup (Some e) = true <-> unique_violation e.
Proof.
  unfold isDup. split.
  - induction e as [code | code | | msg | msg inner IH]; simpl; intros H.
    + apply bool_decide_eq_true in H. subst code. constructor.
    + apply bool_decide_eq_true in H. subst code. constructor.
    + discriminate.
    + discriminate.
    + constructor. apply IH. exact H.
  - induction 1 as [ | | msg e _ IH]; simpl; auto.
Qed.

Lemma isDup_false_iff e : isDup (Some e) = false <-> ~ unique_violation e.
Proof.
  rewrite <- isDup_iff. destruct (isDup (Some e)); split; intros H;
    try reflexivity; try discriminate; try (intros ?; discriminate).
  exfalso. apply H. reflexivity.
Qed.

Lemma isDup_nil : isDup None = false.
Proof. reflexivity. Qed.

(** Whichever client library the connection uses, the driver recognises
    the error it reports for SQLSTATE 23505. *)
Lemma server_error_unique d : unique_violation (server_error d UniqueViolation).
Proof. destruct d; constructor. Qed.

Lemma isDup_server_error d : isDup (Some (server_error d UniqueViolation)) = true.
Proof. apply isDup_iff, server_error_unique. Qed.

End ErrorClassification.

Section Statements.

Implicit Types (tx db : conn) (h : string) (r c n v : bytes).

Lemma set_occ_id tx : Sql.set_occ tx (occ tx) = tx.
Proof. destruct tx; reflexivity. Qed.

Lemma is_empty_true c : is_empty c = true <-> c = [].
Proof. destruct c; split; intros H; try reflexivity; discriminate. Qed.

Lemma has_null_false r n : r <> [] -> n <> [] -> Sql.has_null r n = false.
Proof. destruct r, n; intros Hr Hn; try contradiction; reflexivity. Qed.

Lemma has_null_true r n : Sql.has_null r n = true <-> r = [] \/ n = [].
Proof.
  unfold Sql.has_null. rewrite orb_true_iff, !is_empty_true. reflexivity.
Qed.

Lemma insert_null tx h r n :
  r = [] \/ n = [] ->
  Sql.insert h r n tx = (tx, inr (server_error (conn_driver tx) NotNullViolation)).
Proof.
  intros H. apply has_null_true in H. unfold Sql.insert. rewrite H. reflexivity.
Qed.



(** The error for a [NULL] in a [NOT NULL] column is no uniqueness
    violation. *)
Lemma isDup_not_null d : isDup (Some (server_error d NotNullViolation)) = false.
Proof. destruct d; reflexivity. Qed.

(** An [INSERT] that fails leaves the table as it was. *)
Lemma insert_error fault tx h r n e :
  (Sql.exec fault (Sql.insert h r n) tx).2 = inr e ->
  (Sql.exec fault (Sql.insert h r n) tx).1 = tx.
Proof.
  destruct fault as [e' | ]; simpl; [reflexivity | ].
  unfold Sql.insert. destruct (Sql.has_null r n); [reflexivity | ].
  destruct (occ tx !! (h, r)); simpl; [reflexivity | discriminate].
Qed.

Lemma update_where_hit tx h r c n :
  occ tx !! (h, r) = Some c ->
  Sql.update_where n h r c tx
  = (Sql.set_occ tx (<[(h, r) := n]> (occ tx)), inl (SqlResult 1)).
Proof.
  intros Hv. unfold Sql.update_where. rewrite Hv.
  destruct (decide (c = c)); [reflexivity | contradiction].
Qed.

Lemma update_where_miss tx h r c n :
  occ tx !! (h, r) <> Some c ->
  Sql.update_where n h r c tx = (tx, inl (SqlResult 0)).
Proof.
  intros Hv. unfold Sql.update_where.
  destruct (occ tx !! (h, r)) as [v | ]; [ | reflexivity].
  destruct (decide (v = c)) as [-> | ]; [contradiction | reflexivity].
Qed.

Lemma delete_where_hit tx h r c :
  occ tx !! (h, r) = Some c ->
  Sql.delete_where h r c tx
  = (Sql.set_occ tx (delete (h, r) (occ tx)), inl (SqlResult 1)).
Proof.
  intros Hv. unfold Sql.delete_where. rewrite Hv.
  destruct (decide (c = c)); [reflexivity | contradiction].
Qed.

Lemma delete_where_miss tx h r c :
  occ tx !! (h, r) <> Some c ->
  Sql.delete_where h r c tx = (tx, inl (SqlResult 0)).
Proof.
  intros Hv. unfold Sql.delete_where.
  destruct (occ tx !! (h, r)) as [v | ]; [ | reflexivity].
  destruct (decide (v = c)) as [-> | ]; [contradiction | reflexivity].
Qed.

Lemma is_empty_false c : c <> [] -> is_empty c = false.
Proof. destruct c; [contradiction | reflexivity]. Qed.

(** The three statements of [UpdateVersion], one per branch. *)
Lemma UpdateVersion_insert fault tx h r n :
  UpdateVersion fault tx h r [] n
  = let o := Sql.exec fault (Sql.insert h r n) tx in
    if isDup (err_of o.2) then (o.1, (false, None))
    else (o.1, (true, err_of o.2)).
Proof.
  unfold UpdateVersion. simpl.
  destruct (Sql.exec fault (Sql.insert h r n) tx) as [tx' o]. reflexivity.
Qed.

Lemma UpdateVersion_delete tx h r c :
  c <> [] ->
  UpdateVersion None tx h r c []
  = let o := Sql.delete_where h r c tx in
    (o.1, (bool_decide (occ tx !! (h, r) = Some c), None)).
Proof.
  intros Hc. unfold UpdateVersion. rewrite (is_empty_false c Hc). simpl.
  destruct (decide (occ tx !! (h, r) = Some c)) as [Hv | Hv].
  - rewrite (delete_where_hit _ _ _ _ Hv), bool_decide_eq_true_2 by exact Hv.
    reflexivity.
  - rewrite (delete_where_miss _ _ _ _ Hv), bool_decide_eq_false_2 by exact Hv.
    reflexivity.
Qed.

Lemma UpdateVersion_update tx h r c n :
  c <> [] -> n <> [] ->
  UpdateVersion None tx h r c n
  = let o := Sql.update_where n h r c tx in
    (o.1, (bool_decide (occ tx !! (h, r) = Some c), None)).
Proof.
  intros Hc Hn. unfold UpdateVersion.
  rewrite (is_empty_false c Hc), (is_empty_false n Hn). simpl.
  destruct (decide (occ tx !! (h, r) = Some c)) as [Hv | Hv].
  - rewrite (update_where_hit _ _ _ _ _ Hv), bool_decide_eq_true_2 by exact Hv.
    reflexivity.
  - rewrite (update_where_miss _ _ _ _ _ Hv), bool_decide_eq_false_2 by exact Hv.
    reflexivity.
Qed.

(** A statement that a backend fault hits leaves the table as it was. *)
Lemma UpdateVersion_fault e tx h r c n :
  (UpdateVersion (Some e) tx h r c n).1 = tx.
Proof.
  unfold UpdateVersion, Sql.exec. destruct (is_empty c).
  - cbn [err_of]. destruct (isDup (Some e)); reflexivity.
  - destruct (is_empty n); reflexivity.
Qed.

Lemma QueryVersion_found db h r v :
  occ db !! (h, r) = Some v -> QueryVersion None db h r = (v, None).
Proof. intros Hv. unfold QueryVersion, Sql.select_version. rewrite Hv. reflexivity. Qed.

Lemma QueryVersion_missing db h r :
  occ db !! (h, r) = None -> QueryVersion None db h r = ([], None).
Proof. intros Hv. unfold QueryVersion, Sql.select_version. rewrite Hv. reflexivity. Qed.

(** [StoreVersion] with a resource and a version that are not [nil]. *)
Lemma StoreVersion_ok db h r v :
  r <> [] -> v <> [] ->
  StoreVersion None db h r v = (Sql.set_occ db (<[(h, r) := v]> (occ db)), None).
Proof.
  intros Hr Hv. unfold StoreVersion, Sql.exec, Sql.upsert.
  rewrite (has_null_false _ _ Hr Hv). reflexivity.
Qed.

(** [StoreVersion] with a [nil] resource or version: the server refuses
    the row. *)
Lemma StoreVersion_null db h r v :
  r = [] \/ v = [] ->
  StoreVersion None db h r v
  = (db, Some (server_error (conn_driver db) NotNullViolation)).
Proof.
  intros H. apply has_null_true in H. unfold StoreVersion, Sql.exec, Sql.upsert.
  rewrite H. reflexivity.
Qed.








End Statements.

Section FirstWrite.

Implicit Types (tx : conn) (h : string) (r c n : bytes).







(** C8.  When the [INSERT] of [UpdateVersion] fails with an error that
    [isDup] does not recognise, the caller gets that error: the call does
    not answer [applied = false] with a nil error. *)
Theorem unrecognised_insert_error_is_propagated fault tx h r n e :
  (Sql.exec fault (Sql.insert h r n) tx).2 = inr e ->
  isDup (Some e) = false ->
  (UpdateVersion fault tx h r [] n).2.2 = Some e /\
  (UpdateVersion fault tx h r [] n).2 <> (false, None).
Proof.
  intros He Hdup. rewrite UpdateVersion_insert.
  destruct (Sql.exec fault (Sql.insert h r n) tx) as [tx' o].
  simpl in He. subst o. cbn [fst snd err_of]. rewrite Hdup.
  split; [reflexivity | discriminate].
Qed.

Lemma unrecognised_insert_error_is_propagated_witness :
  (Sql.exec (Some Scenario.conn_reset)
     (Sql.insert Scenario.handler Scenario.order42 Scenario.v1) Scenario.unknown).2
  = inr Scenario.conn_reset /\
  isDup (Some Scenario.conn_reset) = false /\
  (UpdateVersion (Some Scenario.conn_reset) Scenario.unknown
     Scenario.handler Scenario.order42 [] Scenario.v1).2.2
  = Some Scenario.conn_reset /\
  (UpdateVersion (Some Scenario.conn_reset) Scenario.unknown
     Scenario.handler Scenario.order42 [] Scenario.v1).2 <> (false, None).
Proof.
  split; [reflexivity | ]. split; [reflexivity | ].
  exact (unrecognised_insert_error_is_propagated
           (Some Scenario.conn_reset) Scenario.unknown
           Scenario.handler Scenario.order42 Scenario.v1 Scenario.conn_reset
           eq_refl eq_refl).
Defined.

(** C9.  When the [INSERT] of [UpdateVersion] fails with an error that is
    not a PostgreSQL uniqueness violation, the call returns
    [applied = true] together with that error. *)
Theorem applied_true_with_insert_error fault tx h r n e :
  (Sql.exec fault (Sql.insert h r n) tx).2 = inr e ->
  ~ unique_violation e ->
  UpdateVersion fault tx h r [] n = (tx, (true, Some e)).
Proof.
  intros He Hnot.
  pose proof (insert_error _ _ _ _ _ _ He) as Htx.
  rewrite UpdateVersion_insert.
  destruct (Sql.exec fault (Sql.insert h r n) tx) as [tx' o].
  simpl in He, Htx. subst o tx'. cbn [fst snd err_of].
  apply isDup_false_iff in Hnot. rewrite Hnot. reflexivity.
Qed.

Lemma conn_reset_not_unique : ~ unique_violation Scenario.conn_reset.
Proof. apply isDup_false_iff. reflexivity. Qed.

Lemma applied_true_with_insert_error_witness :
  (Sql.exec (Some Scenario.conn_reset)
     (Sql.insert Scenario.handler Scenario.order42 Scenario.v1) Scenario.at_v1).2
  = inr Scenario.conn_reset /\
  ~ unique_violation Scenario.conn_reset /\
  UpdateVersion (Some Scenario.conn_reset) Scenario.at_v1
    Scenario.handler Scenario.order42 [] Scenario.v1
  = (Scenario.at_v1, (true, Some Scenario.conn_reset)).
Proof.
  split; [reflexivity | ]. split; [exact conn_reset_not_unique | ].
  exact (applied_true_with_insert_error
           (Some Scenario.conn_reset) Scenario.at_v1
           Scenario.handler Scenario.order42 Scenario.v1 Scenario.conn_reset
           eq_refl conn_reset_not_unique).
Defined.

End FirstWrite.

Section CompareAndSwap.

Implicit Types (tx db : conn) (h : string) (r c n : bytes) (k : key).

(** C2.  [UpdateVersion] with both tokens non-empty runs the [UPDATE]:
    the record's version becomes [next] if the stored version equals
    [current] and nothing changes otherwise, and [applied] is true
    exactly when the [UPDATE] affected a row. *)
Theorem update_only_if_current tx h r c n :
  c <> [] -> n <> [] ->
  let out := UpdateVersion None tx h r c n in
  let stmt := Sql.update_where n h r c tx in
  (out.1 = stmt.1 /\
   exists res, stmt.2 = inl res /\
     out.2 = (negb (rows res =? 0)%Z, None) /\
     (rows res <> 0%Z <-> occ tx !! (h, r) = Some c)) /\
  (occ tx !! (h, r) = Some c ->
   occ out.1 = <[(h, r) := n]> (occ tx) /\ out.2 = (true, None)) /\
  (occ tx !! (h, r) <> Some c ->
   out.1 = tx /\ out.2 = (false, None)).
Proof.
  intros Hc Hn. cbv zeta. rewrite (UpdateVersion_update _ _ _ _ _ Hc Hn). cbv zeta.
  destruct (decide (occ tx !! (h, r) = Some c)) as [Hv | Hv].
  - rewrite (update_where_hit _ _ _ _ _ Hv), bool_decide_eq_true_2 by exact Hv.
    cbn [fst snd]. split; [split; [reflexivity | ] | split; [ | contradiction]].
    + exists (SqlResult 1). split; [reflexivity | ]. split; [reflexivity | ].
      split; [intros _; exact Hv | intros _; simpl; discriminate].
    + intros _. split; reflexivity.
  - rewrite (update_where_miss _ _ _ _ _ Hv), bool_decide_eq_false_2 by exact Hv.
    cbn [fst snd]. split; [split; [reflexivity | ] | split; [contradiction | ]].
    + exists (SqlResult 0). split; [reflexivity | ]. split; [reflexivity | ].
      simpl. split; intros; contradiction.
    + intros _. split; reflexivity.
Qed.

Lemma update_only_if_current_witness :
  Scenario.v1 <> [] /\ Scenario.v2 <> [] /\
  let out :=
    UpdateVersion None Scenario.at_v1 Scenario.handler Scenario.order42
      Scenario.v1 Scenario.v2 in
  let stmt :=
    Sql.update_where Scenario.v2 Scenario.handler Scenario.order42 Scenario.v1
      Scenario.at_v1 in
  (out.1 = stmt.1 /\
   exists res, stmt.2 = inl res /\
     out.2 = (negb (rows res =? 0)%Z, None) /\
     (rows res <> 0%Z <->
      occ Scenario.at_v1 !! (Scenario.handler, Scenario.order42) = Some Scenario.v1)) /\
  (occ Scenario.at_v1 !! (Scenario.handler, Scenario.order42) = Some Scenario.v1 ->
   occ out.1
   = <[(Scenario.handler, Scenario.order42) := Scenario.v2]> (occ Scenario.at_v1) /\
   out.2 = (true, None)) /\
  (occ Scenario.at_v1 !! (Scenario.handler, Scenario.order42) <> Some Scenario.v1 ->
   out.1 = Scenario.at_v1 /\ out.2 = (false, None)).
Proof.
  assert (H1 : Scenario.v1 <> []) by discriminate.
  assert (H2 : Scenario.v2 <> []) by discriminate.
  split; [exact H1 | ]. split; [exact H2 | ].
  exact (update_only_if_current
           Scenario.at_v1 Scenario.handler Scenario.order42
           Scenario.v1 Scenario.v2 H1 H2).
Defined.

(** C4.  [UpdateVersion] with a non-empty current token and an empty next
    token runs the [DELETE]: the record is removed if its stored version
    equals [current] and nothing changes otherwise, [applied] is true
    exactly when the [DELETE] affected a row, and [QueryVersion] on the
    removed resource returns the empty token. *)
Theorem delete_only_if_current tx h r c :
  c <> [] ->
  let out := UpdateVersion None tx h r c [] in
  let stmt := Sql.delete_where h r c tx in
  (out.1 = stmt.1 /\
   exists res, stmt.2 = inl res /\
     out.2 = (negb (rows res =? 0)%Z, None) /\
     (rows res <> 0%Z <-> occ tx !! (h, r) = Some c)) /\
  (occ tx !! (h, r) = Some c ->
   occ out.1 = delete (h, r) (occ tx) /\ out.2 = (true, None) /\
   QueryVersion None out.1 h r = ([], None)) /\
  (occ tx !! (h, r) <> Some c ->
   out.1 = tx /\ out.2 = (false, None)).
Proof.
  intros Hc. cbv zeta. rewrite (UpdateVersion_delete _ _ _ _ Hc). cbv zeta.
  destruct (decide (occ tx !! (h, r) = Some c)) as [Hv | Hv].
  - rewrite (delete_where_hit _ _ _ _ Hv), bool_decide_eq_true_2 by exact Hv.
    cbn [fst snd]. split; [split; [reflexivity | ] | split; [ | contradiction]].
    + exists (SqlResult 1). split; [reflexivity | ]. split; [reflexivity | ].
      split; [intros _; exact Hv | intros _; simpl; discriminate].
    + intros _. split; [reflexivity | ]. split; [reflexivity | ].
      apply QueryVersion_missing. simpl. apply lookup_delete_eq.
  - rewrite (delete_where_miss _ _ _ _ Hv), bool_decide_eq_false_2 by exact Hv.
    cbn [fst snd]. split; [split; [reflexivity | ] | split; [contradiction | ]].
    + exists (SqlResult 0). split; [reflexivity | ]. split; [reflexivity | ].
      simpl. split; intros; contradiction.
    + intros _. split; reflexivity.
Qed.

Lemma delete_only_if_current_witness :
  Scenario.v1 <> [] /\
  let out :=
    UpdateVersion None Scenario.at_v1 Scenario.handler Scenario.order42
      Scenario.v1 [] in
  let stmt :=
    Sql.delete_where Scenario.handler Scenario.order42 Scenario.v1 Scenario.at_v1 in
  (out.1 = stmt.1 /\
   exists res, stmt.2 = inl res /\
     out.2 = (negb (rows res =? 0)%Z, None) /\
     (rows res <> 0%Z <->
      occ Scenario.at_v1 !! (Scenario.handler, Scenario.order42) = Some Scenario.v1)) /\
  (occ Scenario.at_v1 !! (Scenario.handler, Scenario.order42) = Some Scenario.v1 ->
   occ out.1 = delete (Scenario.handler, Scenario.order42) (occ Scenario.at_v1) /\
   out.2 = (true, None) /\
   QueryVersion None out.1 Scenario.handler Scenario.order42 = ([], None)) /\
  (occ Scenario.at_v1 !! (Scenario.handler, Scenario.order42) <> Some Scenario.v1 ->
   out.1 = Scenario.at_v1 /\ out.2 = (false, None)).
Proof.
  assert (H1 : Scenario.v1 <> []) by discriminate.
  split; [exact H1 | ].
  exact (delete_only_if_current
           Scenario.at_v1 Scenario.handler Scenario.order42 Scenario.v1 H1).
Defined.

End CompareAndSwap.

Section Protocol.

Implicit Types (tx db : conn) (h : string) (r c n : bytes) (k : key).

(** The connection after a swap whose statement ran: the table changes
    only in the branch whose condition on [current] holds. *)
Lemma UpdateVersion_conn tx h r c n :
  (UpdateVersion None tx h r c n).1
  = match c with
    | [] =>
        if Sql.has_null r n then tx
        else
          match occ tx !! (h, r) with
          | None => Sql.set_occ tx (<[(h, r) := n]> (occ tx))
          | Some _ => tx
          end
    | _ :: _ =>
        if decide (occ tx !! (h, r) = Some c)
        then match n with
             | [] => Sql.set_occ tx (delete (h, r) (occ tx))
             | _ :: _ => Sql.set_occ tx (<[(h, r) := n]> (occ tx))
             end
        else tx
    end.
Proof.
  destruct c as [ | b c'].
  - rewrite UpdateVersion_insert. unfold Sql.exec, Sql.insert.
    destruct (Sql.has_null r n).
    + cbn [fst snd err_of]. rewrite isDup_not_null. reflexivity.
    + destruct (occ tx !! (h, r)) as [v | ] eqn:Hv; cbn [fst snd err_of].
      * rewrite isDup_server_error. reflexivity.
      * reflexivity.
  - assert (Hc : b :: c' <> []) by discriminate.
    destruct n as [ | b' n'].
    + rewrite (UpdateVersion_delete _ _ _ _ Hc). cbv zeta. cbn [fst].
      destruct (decide (occ tx !! (h, r) = Some (b :: c'))) as [Hv | Hv].
      * rewrite (delete_where_hit _ _ _ _ Hv). reflexivity.
      * rewrite (delete_where_miss _ _ _ _ Hv). reflexivity.
    + assert (Hn : b' :: n' <> []) by discriminate.
      rewrite (UpdateVersion_update _ _ _ _ _ Hc Hn). cbv zeta. cbn [fst].
      destruct (decide (occ tx !! (h, r) = Some (b :: c'))) as [Hv | Hv].
      * rewrite (update_where_hit _ _ _ _ _ Hv). reflexivity.
      * rewrite (update_where_miss _ _ _ _ _ Hv). reflexivity.
Qed.

(** What a swap whose statement ran returns.  With an empty [current],
    a [NULL] in the row is answered with the server's error and
    [applied = true]; otherwise [applied] says whether the condition on
    [current] held, and the error is nil. *)
Lemma UpdateVersion_outcome tx h r c n :
  (UpdateVersion None tx h r c n).2
  = match c with
    | [] =>
        if Sql.has_null r n
        then (true, Some (server_error (conn_driver tx) NotNullViolation))
        else (bool_decide (occ tx !! (h, r) = None), None)
    | _ :: _ => (bool_decide (occ tx !! (h, r) = Some c), None)
    end.
Proof.
  destruct c as [ | b c'].
  - rewrite UpdateVersion_insert. unfold Sql.exec, Sql.insert.
    destruct (Sql.has_null r n).
    + cbn [fst snd err_of]. rewrite isDup_not_null. reflexivity.
    + destruct (occ tx !! (h, r)) as [v | ] eqn:Hv; cbn [fst snd err_of].
      * rewrite isDup_server_error. reflexivity.
      * reflexivity.
  - assert (Hc : b :: c' <> []) by discriminate.
    destruct n as [ | b' n'].
    + rewrite (UpdateVersion_delete _ _ _ _ Hc). reflexivity.
    + assert (Hn : b' :: n' <> []) by discriminate.
      rewrite (UpdateVersion_update _ _ _ _ _ Hc Hn). reflexivity.
Qed.




(** C6.  After an [UpdateVersion] to a non-empty [next] that succeeded
    ([applied = true], nil error), [QueryVersion] returns exactly [next];
    and on a resource with no record [QueryVersion] returns the empty
    token and a nil error. *)
Theorem query_after_swap fault tx h r c n :
  (n <> [] ->
   (UpdateVersion fault tx h r c n).2 = (true, None) ->
   QueryVersion None (UpdateVersion fault tx h r c n).1 h r = (n, None)) /\
  (occ tx !! (h, r) = None -> QueryVersion None tx h r = ([], None)).
Proof.
  split; [ | apply QueryVersion_missing].
  intros Hn Hok. apply QueryVersion_found.
  destruct fault as [e | ].
  - exfalso. revert Hok. unfold UpdateVersion, Sql.exec.
    destruct (is_empty c).
    + cbn [err_of]. destruct (isDup (Some e)); discriminate.
    + destruct (is_empty n); discriminate.
  - rewrite UpdateVersion_conn. revert Hok. rewrite UpdateVersion_outcome.
    destruct c as [ | b c'].
    + destruct (Sql.has_null r n); [discriminate | ].
      destruct (occ tx !! (h, r)) as [v | ] eqn:Hv.
      * rewrite bool_decide_eq_false_2 by discriminate. discriminate.
      * intros _. simpl. apply lookup_insert_eq.
    + destruct (decide (occ tx !! (h, r) = Some (b :: c'))) as [Hv | Hv].
      * intros _. destruct n; [contradiction | ]. simpl. apply lookup_insert_eq.
      * rewrite bool_decide_eq_false_2 by exact Hv. discriminate.
Qed.

Lemma query_after_swap_witness :
  (Scenario.v2 <> [] ->
   (UpdateVersion None Scenario.at_v1 Scenario.handler Scenario.order42
      Scenario.v1 Scenario.v2).2 = (true, None) ->
   QueryVersion None
     (UpdateVersion None Scenario.at_v1 Scenario.handler Scenario.order42
        Scenario.v1 Scenario.v2).1 Scenario.handler Scenario.order42
   = (Scenario.v2, None)) /\
  Scenario.v2 <> [] /\
  (UpdateVersion None Scenario.at_v1 Scenario.handler Scenario.order42
     Scenario.v1 Scenario.v2).2 = (true, None).
Proof.
  split; [ | split; [discriminate | vm_compute; reflexivity]].
  exact (proj1 (query_after_swap None Scenario.at_v1 Scenario.handler
                  Scenario.order42 Scenario.v1 Scenario.v2)).
Defined.




End Protocol.

(** * Properties of the DynamoDB options *)

Import dynamoprojection.

Section ItemOptions.

Context {GetItemInput PutItemInput DeleteItemInput TransactWriteItemsInput
         CreateTableInput DeleteTableInput Options : Type}.

Implicit Types
  (d : @decorators GetItemInput PutItemInput DeleteItemInput
         TransactWriteItemsInput CreateTableInput DeleteTableInput Options)
  (o : @options GetItemInput PutItemInput DeleteItemInput
         TransactWriteItemsInput CreateTableInput DeleteTableInput Options).

(** An options value whose function field is nil does nothing. *)
Lemma applyOptionToAdaptor_nil o d :
  applyOptionToAdaptorFunc o = None -> applyOptionToAdaptor o d = d.
Proof. intros H. unfold applyOptionToAdaptor. rewrite H. reflexivity. Qed.

Lemma applyResourceRepositoryOption_nil o d :
  applyResourceRepositoryOptionFunc o = None ->
  applyResourceRepositoryOption o d = d.
Proof. intros H. unfold applyResourceRepositoryOption. rewrite H. reflexivity. Qed.

Lemma applyTableOption_nil o d :
  applyTableOptionFunc o = None -> applyTableOption o d = d.
Proof. intros H. unfold applyTableOption. rewrite H. reflexivity. Qed.

(** C10.  Through [applyOptionToAdaptor] the four item-level options
    leave the [decorators] struct as it is; through
    [applyResourceRepositoryOption] each one assigns its decorator to its
    own field and leaves the five others; and an options value whose
    function field is nil leaves the struct as it is. *)
Theorem item_options_frame d o dg dp dd dt :
  (applyOptionToAdaptor (WithDecorateGetItem dg) d = d /\
   applyOptionToAdaptor (WithDecoratePutItem dp) d = d /\
   applyOptionToAdaptor (WithDecorateDeleteItem dd) d = d /\
   applyOptionToAdaptor (WithDecorateTransactWriteItems dt) d = d) /\
  (applyResourceRepositoryOption (WithDecorateGetItem dg) d
   = Decorators dg (decoratePutItem d) (decorateDeleteItem d)
       (decorateTransactWriteItems d) (decorateCreateTableItem d)
       (decorateDeleteTableItem d) /\
   applyResourceRepositoryOption (WithDecoratePutItem dp) d
   = Decorators (decorateGetItem d) dp (decorateDeleteItem d)
       (decorateTransactWriteItems d) (decorateCreateTableItem d)
       (decorateDeleteTableItem d) /\
   applyResourceRepositoryOption (WithDecorateDeleteItem dd) d
   = Decorators (decorateGetItem d) (decoratePutItem d) dd
       (decorateTransactWriteItems d) (decorateCreateTableItem d)
       (decorateDeleteTableItem d) /\
   applyResourceRepositoryOption (WithDecorateTransactWriteItems dt) d
   = Decorators (decorateGetItem d) (decoratePutItem d) (decorateDeleteItem d)
       dt (decorateCreateTableItem d) (decorateDeleteTableItem d)) /\
  ((applyOptionToAdaptorFunc o = None -> applyOptionToAdaptor o d = d) /\
   (applyResourceRepositoryOptionFunc o = None ->
    applyResourceRepositoryOption o d = d) /\
   (applyTableOptionFunc o = None -> applyTableOption o d = d)).
Proof.
  split; [repeat split | ]. split; [repeat split | ].
  split; [apply applyOptionToAdaptor_nil | ].
  split; [apply applyResourceRepositoryOption_nil | apply applyTableOption_nil].
Qed.

End ItemOptions.

Lemma item_options_frame_witness :
  applyOptionToAdaptorFunc OptionScenario.table_only = None /\
  applyOptionToAdaptor OptionScenario.table_only OptionScenario.no_decorators
  = OptionScenario.no_decorators /\
  applyOptionToAdaptor (WithDecorateGetItem (Some OptionScenario.plain))
    OptionScenario.no_decorators
  = OptionScenario.no_decorators /\
  decorateGetItem
    (applyResourceRepositoryOption (WithDecorateGetItem (Some OptionScenario.plain))
       OptionScenario.no_decorators)
  = Some OptionScenario.plain.
Proof.
  pose proof (item_options_frame OptionScenario.no_decorators
                OptionScenario.table_only (Some OptionScenario.plain)
                None None None) as [[Hget _] [[Hreg _] [Hnil _]]].
  split; [reflexivity | ]. split; [exact (Hnil eq_refl) | ].
  split; [exact Hget | ]. rewrite Hreg. reflexivity.
Defined.

(** * Further properties of the PostgreSQL driver *)

Section Classification.

(** X1.  Whichever client library reports it and however often it was
    wrapped on the way, [isDup] answers true on a server error exactly
    when its SQLSTATE is 23505. *)
Theorem isDup_exactly_unique_code d code msgs :
  isDup (Some (wrap_all msgs (server_error d code))) = true
  <-> code = UniqueViolation.
Proof.
  induction msgs as [ | msg msgs IH]; [ | exact IH].
  destruct d; simpl; apply bool_decide_eq_true.
Qed.

End Classification.

Section SwapOutcome.

Implicit Types (tx db : conn) (h : string) (r c n v : bytes) (k : key).

Lemma UpdateVersion_split fault tx h r c n :
  UpdateVersion fault tx h r c n
  = ((UpdateVersion fault tx h r c n).1, (UpdateVersion fault tx h r c n).2).
Proof. destruct (UpdateVersion fault tx h r c n). reflexivity. Qed.

(** What a swap returns when a backend fault hits its statement. *)
Lemma UpdateVersion_fault_result e tx h r c n :
  (UpdateVersion (Some e) tx h r c n).2
  = if is_empty c
    then (if isDup (Some e) then (false, None) else (true, Some e))
    else (false, Some e).
Proof.
  unfold UpdateVersion, Sql.exec. destruct (is_empty c).
  - cbn [err_of]. destruct (isDup (Some e)); reflexivity.
  - destruct (is_empty n); reflexivity.
Qed.

(** X2.  A swap that reports [applied = false] has changed nothing,
    whatever happened to its statement. *)
Theorem not_applied_changes_nothing fault tx h r c n :
  (UpdateVersion fault tx h r c n).2.1 = false ->
  (UpdateVersion fault tx h r c n).1 = tx.
Proof.
  destruct fault as [e | ]; [intros _; apply UpdateVersion_fault | ].
  rewrite UpdateVersion_outcome, UpdateVersion_conn.
  destruct c as [ | b c'].
  - destruct (Sql.has_null r n); [reflexivity | ]. cbn [fst].
    destruct (occ tx !! (h, r)); [reflexivity | ].
    rewrite bool_decide_eq_true_2 by reflexivity. discriminate.
  - cbn [fst]. destruct (decide (occ tx !! (h, r) = Some (b :: c'))) as [Hv | Hv];
      [ | reflexivity].
    rewrite bool_decide_eq_true_2 by exact Hv. discriminate.
Qed.

Lemma not_applied_changes_nothing_witness :
  (UpdateVersion None Scenario.at_v1 Scenario.handler Scenario.order42
     Scenario.v2 Ledger.v3).2.1 = false /\
  (UpdateVersion None Scenario.at_v1 Scenario.handler Scenario.order42
     Scenario.v2 Ledger.v3).1 = Scenario.at_v1.
Proof.
  assert (H : (UpdateVersion None Scenario.at_v1 Scenario.handler Scenario.order42
                 Scenario.v2 Ledger.v3).2.1 = false) by (vm_compute; reflexivity).
  split; [exact H | ].
  exact (not_applied_changes_nothing None Scenario.at_v1 Scenario.handler
           Scenario.order42 Scenario.v2 Ledger.v3 H).
Defined.

(** X3.  When [UpdateVersion] returns an error, that error is the fault
    that hit its statement or, on the [INSERT] branch, the server's
    refusal of a [NULL] resource or version; nothing was changed; and
    [applied] is true on the [INSERT] branch and false on the [UPDATE]
    and [DELETE] branches. *)
Theorem error_changes_nothing fault tx h r c n e :
  (UpdateVersion fault tx h r c n).2.2 = Some e ->
  (fault = Some e \/
   (fault = None /\ c = [] /\ (r = [] \/ n = []) /\
    e = server_error (conn_driver tx) NotNullViolation)) /\
  (UpdateVersion fault tx h r c n).1 = tx /\
  (UpdateVersion fault tx h r c n).2.1 = is_empty c.
Proof.
  destruct fault as [e' | ].
  - rewrite UpdateVersion_fault, UpdateVersion_fault_result.
    destruct (is_empty c).
    + destruct (isDup (Some e')); cbn [fst snd]; [discriminate | ].
      intros [= ->]. auto.
    + cbn [fst snd]. intros [= ->]. auto.
  - rewrite UpdateVersion_outcome, UpdateVersion_conn.
    destruct c as [ | b c']; [ | discriminate].
    destruct (Sql.has_null r n) eqn:Hnull; [ | discriminate].
    cbn [fst snd]. intros [= <-]. apply has_null_true in Hnull.
    split; [right; auto | split; reflexivity].
Qed.

Lemma error_changes_nothing_witness :
  (UpdateVersion (Some Scenario.conn_reset) Scenario.at_v1 Scenario.handler
     Scenario.order42 Scenario.v1 Scenario.v2).2.2 = Some Scenario.conn_reset /\
  (UpdateVersion (Some Scenario.conn_reset) Scenario.at_v1 Scenario.handler
     Scenario.order42 Scenario.v1 Scenario.v2).1 = Scenario.at_v1 /\
  (UpdateVersion (Some Scenario.conn_reset) Scenario.at_v1 Scenario.handler
     Scenario.order42 Scenario.v1 Scenario.v2).2.1 = is_empty Scenario.v1.
Proof.
  split; [reflexivity | ].
  exact (proj2 (error_changes_nothing (Some Scenario.conn_reset) Scenario.at_v1
                  Scenario.handler Scenario.order42 Scenario.v1 Scenario.v2
                  Scenario.conn_reset eq_refl)).
Defined.

(** X4.  [isDup] is consulted on the [INSERT] branch only.  There, any
    error that is a uniqueness violation is answered with
    [applied = false] and a nil error, also when the resource has no
    record; on the [UPDATE] and [DELETE] branches the same error is
    returned to the caller. *)
Theorem unique_violation_by_branch tx h r c n e :
  unique_violation e ->
  UpdateVersion (Some e) tx h r [] n = (tx, (false, None)) /\
  (c <> [] -> UpdateVersion (Some e) tx h r c n = (tx, (false, Some e))).
Proof.
  intros Hu. apply isDup_iff in Hu. split.
  - rewrite UpdateVersion_split, UpdateVersion_fault, UpdateVersion_fault_result.
    cbn [is_empty]. rewrite Hu. reflexivity.
  - intros Hc.
    rewrite UpdateVersion_split, UpdateVersion_fault, UpdateVersion_fault_result.
    rewrite (is_empty_false c Hc). reflexivity.
Qed.

Lemma foreign_dup_unique : unique_violation Ledger.foreign_dup.
Proof. apply isDup_iff. reflexivity. Qed.

Lemma unique_violation_by_branch_witness :
  unique_violation Ledger.foreign_dup /\
  UpdateVersion (Some Ledger.foreign_dup) Scenario.unknown Scenario.handler
    Scenario.order42 [] Scenario.v2 = (Scenario.unknown, (false, None)) /\
  Scenario.v1 <> [] /\
  UpdateVersion (Some Ledger.foreign_dup) Scenario.unknown Scenario.handler
    Scenario.order42 Scenario.v1 Scenario.v2
  = (Scenario.unknown, (false, Some Ledger.foreign_dup)).
Proof.
  assert (Hne : Scenario.v1 <> []) by discriminate.
  destruct (unique_violation_by_branch Scenario.unknown Scenario.handler
              Scenario.order42 Scenario.v1 Scenario.v2 Ledger.foreign_dup
              foreign_dup_unique) as [Hins Hupd].
  split; [exact foreign_dup_unique | ].
  split; [exact Hins | ]. split; [exact Hne | exact (Hupd Hne)].
Defined.

End SwapOutcome.

Section SwapSequences.

Implicit Types (tx db : conn) (h : string) (r c m n v : bytes) (k : key).

Lemma set_occ_twice tx (t1 t2 : table) :
  Sql.set_occ (Sql.set_occ tx t1) t2 = Sql.set_occ tx t2.
Proof. reflexivity. Qed.

(** The connection and the result of a swap whose statement ran and
    whose condition held. *)
Lemma UpdateVersion_first tx h r n :
  r <> [] -> n <> [] ->
  occ tx !! (h, r) = None ->
  UpdateVersion None tx h r [] n
  = (Sql.set_occ tx (<[(h, r) := n]> (occ tx)), (true, None)).
Proof.
  intros Hr Hn Hv.
  rewrite UpdateVersion_split, UpdateVersion_conn, UpdateVersion_outcome.
  rewrite (has_null_false _ _ Hr Hn), Hv, bool_decide_eq_true_2 by reflexivity.
  reflexivity.
Qed.

Lemma UpdateVersion_hit tx h r c n :
  c <> [] ->
  occ tx !! (h, r) = Some c ->
  UpdateVersion None tx h r c n
  = (match n with
     | [] => Sql.set_occ tx (delete (h, r) (occ tx))
     | _ :: _ => Sql.set_occ tx (<[(h, r) := n]> (occ tx))
     end, (true, None)).
Proof.
  intros Hc Hv.
  rewrite UpdateVersion_split, UpdateVersion_conn, UpdateVersion_outcome.
  destruct c as [ | b c']; [contradiction | ].
  rewrite decide_True by exact Hv. rewrite bool_decide_eq_true_2 by exact Hv.
  reflexivity.
Qed.

Lemma UpdateVersion_rejected tx h r c n :
  match c with
  | [] => r <> [] /\ n <> [] /\ is_Some (occ tx !! (h, r))
  | _ :: _ => occ tx !! (h, r) <> Some c
  end ->
  UpdateVersion None tx h r c n = (tx, (false, None)).
Proof.
  intros Hv.
  rewrite UpdateVersion_split, UpdateVersion_conn, UpdateVersion_outcome.
  destruct c as [ | b c'].
  - destruct Hv as [Hr [Hn [v Hv]]]. rewrite (has_null_false _ _ Hr Hn), Hv.
    rewrite bool_decide_eq_false_2 by discriminate. reflexivity.
  - rewrite decide_False by exact Hv. rewrite bool_decide_eq_false_2 by exact Hv.
    reflexivity.
Qed.

(** X5.  Creating a record and removing it again brings back the
    connection as it was: on a resource without a record, the swap from
    the empty token to a non-empty [n] followed by the swap from [n] to
    the empty token both apply, and the table is the one before.  The
    resource is not [nil]. *)
Theorem create_then_delete_restores tx h r n :
  r <> [] ->
  n <> [] ->
  occ tx !! (h, r) = None ->
  (UpdateVersion None tx h r [] n).2 = (true, None) /\
  UpdateVersion None (UpdateVersion None tx h r [] n).1 h r n [] = (tx, (true, None)).
Proof.
  intros Hr Hn Hv. rewrite (UpdateVersion_first _ _ _ _ Hr Hn Hv). cbn [fst snd].
  split; [reflexivity | ].
  rewrite (UpdateVersion_hit _ _ _ _ _ Hn) by (simpl; apply lookup_insert_eq).
  simpl. rewrite (delete_insert_id _ _ _ Hv). rewrite set_occ_twice, set_occ_id.
  reflexivity.
Qed.

Lemma create_then_delete_restores_witness :
  Scenario.order42 <> [] /\
  Scenario.v1 <> [] /\
  occ Scenario.unknown !! (Scenario.handler, Scenario.order42) = None /\
  (UpdateVersion None Scenario.unknown Scenario.handler Scenario.order42 []
     Scenario.v1).2 = (true, None) /\
  UpdateVersion None
    (UpdateVersion None Scenario.unknown Scenario.handler Scenario.order42 []
       Scenario.v1).1 Scenario.handler Scenario.order42 Scenario.v1 []
  = (Scenario.unknown, (true, None)).
Proof.
  assert (H0 : Scenario.order42 <> []) by discriminate.
  assert (H1 : occ Scenario.unknown !! (Scenario.handler, Scenario.order42) = None)
    by (vm_compute; reflexivity).
  assert (H2 : Scenario.v1 <> []) by discriminate.
  split; [exact H0 | ]. split; [exact H2 | ]. split; [exact H1 | ].
  exact (create_then_delete_restores Scenario.unknown Scenario.handler
           Scenario.order42 Scenario.v1 H0 H2 H1).
Defined.

(** X6.  Two swaps in a row, from [c] to [m] and from [m] to [n], end
    where the single swap from [c] to [n] ends, with the same result. *)
Theorem chained_swaps_compose tx h r c m n :
  c <> [] -> m <> [] -> n <> [] ->
  occ tx !! (h, r) = Some c ->
  (UpdateVersion None tx h r c m).2 = (true, None) /\
  UpdateVersion None (UpdateVersion None tx h r c m).1 h r m n
  = UpdateVersion None tx h r c n.
Proof.
  intros Hc Hm Hn Hv.
  rewrite (UpdateVersion_hit _ _ _ _ m Hc Hv), (UpdateVersion_hit _ _ _ _ n Hc Hv).
  destruct m as [ | bm m']; [contradiction | ].
  destruct n as [ | bn n']; [contradiction | ].
  cbn [fst snd]. split; [reflexivity | ].
  rewrite (UpdateVersion_hit _ _ _ _ _ Hm) by (simpl; apply lookup_insert_eq).
  simpl. rewrite insert_insert_eq. reflexivity.
Qed.

Lemma chained_swaps_compose_witness :
  Scenario.v1 <> [] /\ Scenario.v2 <> [] /\ Ledger.v3 <> [] /\
  occ Scenario.at_v1 !! (Scenario.handler, Scenario.order42) = Some Scenario.v1 /\
  (UpdateVersion None Scenario.at_v1 Scenario.handler Scenario.order42
     Scenario.v1 Scenario.v2).2 = (true, None) /\
  UpdateVersion None
    (UpdateVersion None Scenario.at_v1 Scenario.handler Scenario.order42
       Scenario.v1 Scenario.v2).1 Scenario.handler Scenario.order42
    Scenario.v2 Ledger.v3
  = UpdateVersion None Scenario.at_v1 Scenario.handler Scenario.order42
      Scenario.v1 Ledger.v3.
Proof.
  assert (H1 : Scenario.v1 <> []) by discriminate.
  assert (H2 : Scenario.v2 <> []) by discriminate.
  assert (H3 : Ledger.v3 <> []) by discriminate.
  assert (H4 : occ Scenario.at_v1 !! (Scenario.handler, Scenario.order42)
               = Some Scenario.v1) by (vm_compute; reflexivity).
  split; [exact H1 | ]. split; [exact H2 | ]. split; [exact H3 | ].
  split; [exact H4 | ].
  exact (chained_swaps_compose Scenario.at_v1 Scenario.handler Scenario.order42
           Scenario.v1 Scenario.v2 Ledger.v3 H1 H2 H3 H4).
Defined.

(** X7.  Of two swaps from the same [current], only the first applies:
    once a swap from [c] to a different [n1] has applied, a swap from [c]
    to [n2] returns [applied = false] with a nil error and changes
    nothing.  When [c] is empty the second swap is an [INSERT], and its
    [n2] is not [nil]. *)
Theorem second_swap_from_same_current_loses tx h r c n1 n2 :
  c <> n1 ->
  c <> [] \/ n2 <> [] ->
  (UpdateVersion None tx h r c n1).2 = (true, None) ->
  UpdateVersion None (UpdateVersion None tx h r c n1).1 h r c n2
  = ((UpdateVersion None tx h r c n1).1, (false, None)).
Proof.
  intros Hne Hn2. rewrite UpdateVersion_outcome. intros Hok.
  apply UpdateVersion_rejected. rewrite UpdateVersion_conn.
  destruct c as [ | b c'].
  - destruct (Sql.has_null r n1) eqn:Hnull; [discriminate | ].
    injection Hok as Hok. apply bool_decide_eq_true in Hok. rewrite Hok. simpl.
    rewrite lookup_insert_eq.
    assert (Hr : r <> []).
    { intros ->. discriminate Hnull. }
    destruct Hn2 as [Hc | Hn2]; [contradiction | eauto].
  - injection Hok as Hok. apply bool_decide_eq_true in Hok.
    rewrite decide_True by exact Hok.
    destruct n1 as [ | b1 n1']; simpl.
    + rewrite lookup_delete_eq. discriminate.
    + rewrite lookup_insert_eq. congruence.
Qed.

Lemma second_swap_from_same_current_loses_witness :
  Scenario.v1 <> Scenario.v2 /\
  (Scenario.v1 <> [] \/ Ledger.v3 <> []) /\
  (UpdateVersion None Scenario.at_v1 Scenario.handler Scenario.order42
     Scenario.v1 Scenario.v2).2 = (true, None) /\
  UpdateVersion None
    (UpdateVersion None Scenario.at_v1 Scenario.handler Scenario.order42
       Scenario.v1 Scenario.v2).1 Scenario.handler Scenario.order42
    Scenario.v1 Ledger.v3
  = ((UpdateVersion None Scenario.at_v1 Scenario.handler Scenario.order42
        Scenario.v1 Scenario.v2).1, (false, None)).
Proof.
  assert (H1 : Scenario.v1 <> Scenario.v2) by discriminate.
  assert (H0 : Scenario.v1 <> [] \/ Ledger.v3 <> []) by (left; discriminate).
  assert (H2 : (UpdateVersion None Scenario.at_v1 Scenario.handler Scenario.order42
                  Scenario.v1 Scenario.v2).2 = (true, None))
    by (vm_compute; reflexivity).
  split; [exact H1 | ]. split; [exact H0 | ]. split; [exact H2 | ].
  exact (second_swap_from_same_current_loses Scenario.at_v1 Scenario.handler
           Scenario.order42 Scenario.v1 Scenario.v2 Ledger.v3 H1 H0 H2).
Defined.

End SwapSequences.

Section Administration.

Implicit Types (tx db : conn) (h : string) (r c n v : bytes) (k : key).

Lemma DeleteResource_run db h r :
  DeleteResource None db h r = (Sql.set_occ db (delete (h, r) (occ db)), None).
Proof.
  unfold DeleteResource, Sql.exec, Sql.delete_key.
  destruct (occ db !! (h, r)) eqn:Hv; cbn [err_of]; [reflexivity | ].
  rewrite (delete_id _ _ Hv), set_occ_id. reflexivity.
Qed.

Lemma QueryVersion_run db h r :
  QueryVersion None db h r = (default [] (occ db !! (h, r)), None).
Proof.
  destruct (occ db !! (h, r)) as [v | ] eqn:Hv.
  - rewrite (QueryVersion_found _ _ _ _ Hv). reflexivity.
  - rewrite (QueryVersion_missing _ _ _ Hv). reflexivity.
Qed.




(** X10.  Of two [StoreVersion] calls on a resource the last one wins,
    and storing the version that the record already holds changes
    nothing.  The resource and the last version are not [nil]. *)
Theorem store_last_wins db h r v1 v2 :
  r <> [] -> v2 <> [] ->
  StoreVersion None (StoreVersion None db h r v1).1 h r v2
  = StoreVersion None db h r v2 /\
  (occ db !! (h, r) = Some v2 -> StoreVersion None db h r v2 = (db, None)).
Proof.
  intros Hr Hv2. rewrite !(StoreVersion_ok _ _ _ _ Hr Hv2). split.
  - destruct v1 as [ | b v1'].
    + rewrite (StoreVersion_null db h r []) by (right; reflexivity). reflexivity.
    + rewrite (StoreVersion_ok db h r (b :: v1') Hr) by discriminate.
      cbn [fst occ Sql.set_occ]. rewrite insert_insert_eq. reflexivity.
  - intros Hv. rewrite (insert_id _ _ _ Hv). destruct db; reflexivity.
Qed.

Lemma store_last_wins_witness :
  Scenario.order42 <> [] /\ Scenario.v1 <> [] /\
  occ Scenario.at_v1 !! (Scenario.handler, Scenario.order42) = Some Scenario.v1 /\
  StoreVersion None Scenario.at_v1 Scenario.handler Scenario.order42 Scenario.v1
  = (Scenario.at_v1, None).
Proof.
  assert (Hr : Scenario.order42 <> []) by discriminate.
  assert (Hv : Scenario.v1 <> []) by discriminate.
  assert (H : occ Scenario.at_v1 !! (Scenario.handler, Scenario.order42)
              = Some Scenario.v1) by (vm_compute; reflexivity).
  split; [exact Hr | ]. split; [exact Hv | ]. split; [exact H | ].
  exact (proj2 (store_last_wins Scenario.at_v1 Scenario.handler Scenario.order42
                  Scenario.v2 Scenario.v1 Hr Hv) H).
Defined.

(** X11.  After [StoreVersion] has set a resource to [v], neither [nil],
    a swap applies exactly when its [current] is non-empty and equal to
    [v]; a swap from the empty token, whose [next] is not [nil], does
    not. *)
Theorem swap_after_store db h r v c n :
  r <> [] -> v <> [] ->
  c <> [] \/ n <> [] ->
  (UpdateVersion None (StoreVersion None db h r v).1 h r c n).2
  = (bool_decide (c <> [] /\ c = v), None).
Proof.
  intros Hr Hv Hcn.
  rewrite UpdateVersion_outcome, (StoreVersion_ok _ _ _ _ Hr Hv).
  cbn [fst occ Sql.set_occ]. rewrite lookup_insert_eq.
  destruct c as [ | b c'].
  - destruct Hcn as [Hc | Hn]; [contradiction | ].
    rewrite (has_null_false _ _ Hr Hn). reflexivity.
  - f_equal. apply bool_decide_ext. split.
    + intros [= ->]. split; [discriminate | reflexivity].
    + intros [_ ->]. reflexivity.
Qed.

Lemma swap_after_store_witness :
  Scenario.order42 <> [] /\ Scenario.v1 <> [] /\
  (Scenario.v1 <> [] \/ Scenario.v2 <> []) /\
  (UpdateVersion None
     (StoreVersion None Scenario.unknown Scenario.handler Scenario.order42
        Scenario.v1).1 Scenario.handler Scenario.order42 Scenario.v1 Scenario.v2).2
  = (bool_decide (Scenario.v1 <> [] /\ Scenario.v1 = Scenario.v1), None).
Proof.
  assert (Hr : Scenario.order42 <> []) by discriminate.
  assert (Hv : Scenario.v1 <> []) by discriminate.
  assert (Hcn : Scenario.v1 <> [] \/ Scenario.v2 <> []) by (left; exact Hv).
  split; [exact Hr | ]. split; [exact Hv | ]. split; [exact Hcn | ].
  exact (swap_after_store Scenario.unknown Scenario.handler Scenario.order42
           Scenario.v1 Scenario.v1 Scenario.v2 Hr Hv Hcn).
Defined.

(** X12.  [DeleteResource] returns a nil error whether or not the
    resource has a record; afterwards [QueryVersion] returns the empty
    token, a swap from the empty token to a [next] that is not [nil]
    applies when the resource is not [nil], and the records of the other
    resources are as before. *)
Theorem delete_resource_resets db h r n k :
  (DeleteResource None db h r).2 = None /\
  QueryVersion None (DeleteResource None db h r).1 h r = ([], None) /\
  (r <> [] -> n <> [] ->
   (UpdateVersion None (DeleteResource None db h r).1 h r [] n).2 = (true, None)) /\
  (k <> (h, r) -> occ (DeleteResource None db h r).1 !! k = occ db !! k).
Proof.
  rewrite DeleteResource_run. cbn [fst snd].
  assert (Hgone : occ (Sql.set_occ db (delete (h, r) (occ db))) !! (h, r) = None).
  { simpl. apply lookup_delete_eq. }
  split; [reflexivity | ]. split; [apply QueryVersion_missing, Hgone | ]. split.
  - intros Hr Hn. rewrite (UpdateVersion_first _ _ _ _ Hr Hn Hgone). reflexivity.
  - intros Hne. simpl. apply lookup_delete_ne. congruence.
Qed.

Lemma delete_resource_resets_witness :
  Scenario.order42 <> [] /\ Scenario.v1 <> [] /\
  (UpdateVersion None
     (DeleteResource None Ledger.two_records Scenario.handler Scenario.order42).1
     Scenario.handler Scenario.order42 [] Scenario.v1).2 = (true, None) /\
  (Scenario.handler, Ledger.invoice7) <> (Scenario.handler, Scenario.order42) /\
  occ (DeleteResource None Ledger.two_records Scenario.handler Scenario.order42).1
    !! (Scenario.handler, Ledger.invoice7)
  = occ Ledger.two_records !! (Scenario.handler, Ledger.invoice7) /\
  QueryVersion None
    (DeleteResource None Ledger.two_records Scenario.handler Scenario.order42).1
    Scenario.handler Scenario.order42 = ([], None).
Proof.
  assert (Hr : Scenario.order42 <> []) by discriminate.
  assert (Hn : Scenario.v1 <> []) by discriminate.
  assert (H : (Scenario.handler, Ledger.invoice7)
              <> (Scenario.handler, Scenario.order42)) by discriminate.
  destruct (delete_resource_resets Ledger.two_records Scenario.handler
              Scenario.order42 Scenario.v1 (Scenario.handler, Ledger.invoice7))
    as [_ [Hq [Hfirst Hother]]].
  split; [exact Hr | ]. split; [exact Hn | ]. split; [exact (Hfirst Hr Hn) | ].
  split; [exact H | ]. split; [exact (Hother H) | exact Hq].
Defined.

(** X13.  [DeleteResource] twice is [DeleteResource] once; on a resource
    without a record it changes nothing; it undoes a [StoreVersion] on
    such a resource; and on a record at [c] it leaves the connection that
    the swap from [c] to the empty token leaves. *)
Theorem delete_resource_compose db h r v c :
  DeleteResource None (DeleteResource None db h r).1 h r
  = DeleteResource None db h r /\
  (occ db !! (h, r) = None ->
   DeleteResource None db h r = (db, None) /\
   DeleteResource None (StoreVersion None db h r v).1 h r = (db, None)) /\
  (c <> [] -> occ db !! (h, r) = Some c ->
   (UpdateVersion None db h r c []).1 = (DeleteResource None db h r).1).
Proof.
  rewrite !DeleteResource_run. cbn [fst occ Sql.set_occ].
  split; [rewrite delete_delete_eq; reflexivity | ]. split.
  - intros Hl. rewrite (delete_id _ _ Hl), set_occ_id. split; [reflexivity | ].
    unfold StoreVersion, Sql.exec, Sql.upsert.
    destruct (Sql.has_null r v); cbn [fst occ Sql.set_occ].
    + rewrite (delete_id _ _ Hl), set_occ_id. reflexivity.
    + rewrite (delete_insert_id _ _ _ Hl). destruct db; reflexivity.
  - intros Hc Hv. rewrite (UpdateVersion_hit _ _ _ _ _ Hc Hv). reflexivity.
Qed.

Lemma delete_resource_compose_witness :
  occ Scenario.unknown !! (Scenario.handler, Scenario.order42) = None /\
  DeleteResource None
    (StoreVersion None Scenario.unknown Scenario.handler Scenario.order42
       Scenario.v1).1 Scenario.handler Scenario.order42
  = (Scenario.unknown, None) /\
  Scenario.v1 <> [] /\
  occ Scenario.at_v1 !! (Scenario.handler, Scenario.order42) = Some Scenario.v1 /\
  (UpdateVersion None Scenario.at_v1 Scenario.handler Scenario.order42
     Scenario.v1 []).1
  = (DeleteResource None Scenario.at_v1 Scenario.handler Scenario.order42).1.
Proof.
  assert (H1 : occ Scenario.unknown !! (Scenario.handler, Scenario.order42) = None)
    by (vm_compute; reflexivity).
  assert (H2 : Scenario.v1 <> []) by discriminate.
  assert (H3 : occ Scenario.at_v1 !! (Scenario.handler, Scenario.order42)
               = Some Scenario.v1) by (vm_compute; reflexivity).
  split; [exact H1 | ].
  split; [exact (proj2 (proj1 (proj2 (delete_resource_compose Scenario.unknown
                   Scenario.handler Scenario.order42 Scenario.v1 Scenario.v1)) H1)) | ].
  split; [exact H2 | ]. split; [exact H3 | ].
  exact (proj2 (proj2 (delete_resource_compose Scenario.at_v1 Scenario.handler
                  Scenario.order42 Scenario.v1 Scenario.v1)) H2 H3).
Defined.

(** X14.  [QueryVersion] never returns [sql.ErrNoRows]: an error it
    returns is the fault that hit it, beside a [nil] version when the
    fault came before a row was read and beside the stored version when
    it came as the rows were closed.  The comparison with
    [sql.ErrNoRows] is by identity, so a wrapped [sql.ErrNoRows] is
    returned as an error. *)
Theorem query_error_shape fault db h r e msg :
  ((QueryVersion fault db h r).2 = Some e ->
   e <> GoError.ErrNoRows /\
   ((fault = Some (Sql.BeforeRow e) /\ (QueryVersion fault db h r).1 = []) \/
    (fault = Some (Sql.AtClose e) /\
     occ db !! (h, r) = Some (QueryVersion fault db h r).1))) /\
  QueryVersion (Some (Sql.BeforeRow (GoError.Wrap msg GoError.ErrNoRows))) db h r
  = ([], Some (GoError.Wrap msg GoError.ErrNoRows)).
Proof.
  split; [ | reflexivity].
  destruct fault as [[e' | e'] | ].
  - unfold QueryVersion, Sql.select_version.
    destruct (decide (Some e' = Some GoError.ErrNoRows)) as [Heq | Hne];
      cbn [fst snd]; [discriminate | ].
    intros [= ->]. split; [congruence | left; auto].
  - unfold QueryVersion, Sql.select_version.
    destruct (occ db !! (h, r)) as [v | ] eqn:Hl.
    + destruct (decide (Some e' = Some GoError.ErrNoRows)) as [Heq | Hne];
        cbn [fst snd]; [discriminate | ].
      intros [= ->]. split; [congruence | right; auto].
    + rewrite decide_True by reflexivity. discriminate.
  - rewrite QueryVersion_run. discriminate.
Qed.

Lemma query_error_shape_witness :
  (QueryVersion (Some (Sql.AtClose Scenario.conn_reset)) Scenario.at_v1
     Scenario.handler Scenario.order42).2 = Some Scenario.conn_reset /\
  Scenario.conn_reset <> GoError.ErrNoRows /\
  (QueryVersion (Some (Sql.AtClose Scenario.conn_reset)) Scenario.at_v1
     Scenario.handler Scenario.order42).1 = Scenario.v1.
Proof.
  destruct (proj1 (query_error_shape (Some (Sql.AtClose Scenario.conn_reset))
                     Scenario.at_v1 Scenario.handler Scenario.order42
                     Scenario.conn_reset "scan") eq_refl) as [Hne _].
  split; [reflexivity | ]. split; [exact Hne | reflexivity].
Defined.




End Administration.

Section Schema.

Import Provisioning.

(** X15.  [DropSchema] returns a nil error whether or not the schema is
    there, and a second [DropSchema] changes nothing more; [CreateSchema]
    after it succeeds, and in the schema it creates [QueryVersion]
    returns the empty token for every resource, whatever the database
    held before. *)
Theorem drop_then_create_is_empty d h r :
  (DropSchema None d).2 = None /\
  DropSchema None (DropSchema None d).1 = DropSchema None d /\
  (CreateSchema None (DropSchema None d).1).2 = None /\
  exists cn,
    session (CreateSchema None (DropSchema None d).1).1 = Some cn /\
    conn_driver cn = db_driver d /\
    QueryVersion None cn h r = ([], None).
Proof.
  split; [reflexivity | ]. split; [reflexivity | ]. split; [reflexivity | ].
  exists (Conn (db_driver d) ∅). split; [reflexivity | ]. split; [reflexivity | ].
  apply QueryVersion_missing. simpl. apply lookup_empty.
Qed.

(** X16.  [CreateSchema] succeeds exactly when the schema is absent; when
    it fails the database is as it was, rows included; and a second
    [CreateSchema] fails. *)
Theorem create_schema_once d :
  ((CreateSchema None d).2 = None <-> projection d = None) /\
  ((CreateSchema None d).2 <> None -> (CreateSchema None d).1 = d) /\
  (CreateSchema None (CreateSchema None d).1).2 <> None.
Proof.
  unfold CreateSchema, Ddl.exec, Ddl.create_schema.
  destruct (projection d) as [t | ] eqn:Hp; cbn [fst snd err_of].
  - rewrite Hp. cbn [fst snd err_of].
    split; [split; discriminate | ]. split; [reflexivity | discriminate].
  - cbn [projection fst snd err_of].
    split; [split; reflexivity | ]. split; [contradiction | discriminate].
Qed.

Lemma create_schema_once_witness :
  (CreateSchema None Ledger.provisioned).2 <> None /\
  (CreateSchema None Ledger.provisioned).1 = Ledger.provisioned.
Proof.
  assert (H : (CreateSchema None Ledger.provisioned).2 <> None) by discriminate.
  split; [exact H | ].
  exact (proj1 (proj2 (create_schema_once Ledger.provisioned)) H).
Defined.

End Schema.

(** * Further properties of the DynamoDB options *)

Section OptionSequences.

Import OptionList.

Context {GetItemInput PutItemInput DeleteItemInput TransactWriteItemsInput
         CreateTableInput DeleteTableInput Options : Type}.

Implicit Types
  (d : @decorators GetItemInput PutItemInput DeleteItemInput
         TransactWriteItemsInput CreateTableInput DeleteTableInput Options)
  (a b : @item_option GetItemInput PutItemInput DeleteItemInput
           TransactWriteItemsInput Options)
  (os : list (@item_option GetItemInput PutItemInput DeleteItemInput
                TransactWriteItemsInput Options))
  (ts : list (@table_option CreateTableInput DeleteTableInput Options))
  (o : @options GetItemInput PutItemInput DeleteItemInput
         TransactWriteItemsInput CreateTableInput DeleteTableInput Options)
  (l : list (@options GetItemInput PutItemInput DeleteItemInput
               TransactWriteItemsInput CreateTableInput DeleteTableInput Options)).

Lemma apply_each_snoc apply l o d :
  apply_each apply (l ++ [o]) d = apply o (apply_each apply l d).
Proof. unfold apply_each. rewrite foldl_app. reflexivity. Qed.

(** A step that does nothing, repeated, does nothing. *)
Lemma apply_each_inert apply l d :
  (forall o d', o ∈ l -> apply o d' = d') -> apply_each apply l d = d.
Proof.
  induction l as [ | o l IH] using rev_ind; intros Hall; [reflexivity | ].
  rewrite apply_each_snoc, Hall by (apply elem_of_app; right; constructor).
  apply IH. intros o' d' Hin. apply Hall, elem_of_app. left. exact Hin.
Qed.

(** X17.  The three paths are separate.  Any sequence of item-level
    options leaves the [decorators] struct as it is when applied through
    [applyOptionToAdaptor] or through [applyTableOption], and any
    sequence of table-level options does when applied through
    [applyOptionToAdaptor] or through [applyResourceRepositoryOption]. *)
Theorem option_paths_are_separate os ts d :
  apply_each applyOptionToAdaptor (build_item <$> os) d = d /\
  apply_each applyTableOption (build_item <$> os) d = d /\
  apply_each applyOptionToAdaptor (build_table <$> ts) d = d /\
  apply_each applyResourceRepositoryOption (build_table <$> ts) d = d.
Proof.
  repeat split; apply apply_each_inert; intros o d' Hin;
    apply list_elem_of_fmap in Hin as [x [-> _]]; destruct x; reflexivity.
Qed.

(** X18.  Through [applyResourceRepositoryOption], a sequence of
    item-level options leaves in each of the four item fields the
    decorator of the last option of that kind, nil included, or what the
    field held when the sequence has none of that kind; the two table
    fields are as before. *)
Theorem repository_path_keeps_last os d :
  apply_each applyResourceRepositoryOption (build_item <$> os) d
  = Decorators
      (default (decorateGetItem d) (last_GetItem os))
      (default (decoratePutItem d) (last_PutItem os))
      (default (decorateDeleteItem d) (last_DeleteItem os))
      (default (decorateTransactWriteItems d) (last_TransactWriteItems os))
      (decorateCreateTableItem d)
      (decorateDeleteTableItem d).
Proof.
  induction os as [ | a os IH] using rev_ind.
  - destruct d; reflexivity.
  - rewrite fmap_app. cbn [fmap list_fmap]. rewrite apply_each_snoc, IH.
    unfold last_GetItem, last_PutItem, last_DeleteItem, last_TransactWriteItems.
    rewrite !foldl_app. destruct a; reflexivity.
Qed.

(** X19.  Through [applyTableOption], a sequence of table-level options
    leaves in each of the two table fields the decorator of the last
    option of that kind, or what the field held; the four item fields
    are as before. *)
Theorem table_path_keeps_last ts d :
  apply_each applyTableOption (build_table <$> ts) d
  = Decorators
      (decorateGetItem d) (decoratePutItem d) (decorateDeleteItem d)
      (decorateTransactWriteItems d)
      (default (decorateCreateTableItem d) (last_CreateTable ts))
      (default (decorateDeleteTableItem d) (last_DeleteTable ts)).
Proof.
  induction ts as [ | t ts IH] using rev_ind.
  - destruct d; reflexivity.
  - rewrite fmap_app. cbn [fmap list_fmap]. rewrite apply_each_snoc, IH.
    unfold last_CreateTable, last_DeleteTable.
    rewrite !foldl_app. destruct t; reflexivity.
Qed.

(** X20.  Through [applyResourceRepositoryOption], two item-level
    options of different kinds can be applied in either order, and of two
    options of the same kind the second alone decides. *)
Theorem item_options_compose a b d :
  (same_kind a b = false ->
   applyResourceRepositoryOption (build_item b)
     (applyResourceRepositoryOption (build_item a) d)
   = applyResourceRepositoryOption (build_item a)
       (applyResourceRepositoryOption (build_item b) d)) /\
  (same_kind a b = true ->
   applyResourceRepositoryOption (build_item b)
     (applyResourceRepositoryOption (build_item a) d)
   = applyResourceRepositoryOption (build_item b) d).
Proof.
  split; intros Hk; destruct a, b; try discriminate Hk; reflexivity.
Qed.

End OptionSequences.

Lemma item_options_compose_witness :
  OptionList.same_kind OptionCalls.get_plain OptionCalls.put_plain = false /\
  applyResourceRepositoryOption (OptionList.build_item OptionCalls.put_plain)
    (applyResourceRepositoryOption (OptionList.build_item OptionCalls.get_plain)
       OptionScenario.no_decorators)
  = applyResourceRepositoryOption (OptionList.build_item OptionCalls.get_plain)
      (applyResourceRepositoryOption (OptionList.build_item OptionCalls.put_plain)
         OptionScenario.no_decorators).
Proof.
  split; [reflexivity | ].
  exact (proj1 (item_options_compose OptionCalls.get_plain OptionCalls.put_plain
                  OptionScenario.no_decorators) eq_refl).
Defined.
